(** * Verification of the ERC-8004 feedback-authorization client

    Shallow embedding of [ReputationClient] (createFeedbackAuth,
    signFeedbackAuth, giveFeedback, revokeFeedback, appendResponse,
    getIdentityRegistry, getClients, getLastIndex), of the feedback flow of
    the examples, of the two blockchain adapters ([signMessage], the write
    guards, ViemAdapter's function-name cleaning and the event collection
    of EthersAdapter.send), together with the part of ethers' ABI coder
    that encodes a tuple of static words.

    Modelling choices:
    - a byte string (ethers' hex strings and Uint8Arrays) is a [list byte];
    - a bigint is a [Z]; an address is the 160-bit number its hex string
      denotes (ethers' [getAddress] rejects anything else, which the range
      check of the address coder stands for);
    - a JavaScript [number] score is a rational [Q];
    - every adapter method invocation is logged in a trace, and a thrown
      exception (a rejected promise) is an [Err]. *)

From Stdlib Require Import ZArith QArith Ascii String List Lia.
From Stdlib Require Import Strings.Byte.
Import ListNotations.
Open Scope Z_scope.

(** ** Big-endian words *)

Definition byte_of_Z (z : Z) : byte :=
  match Byte.of_N (Z.to_N (z mod 256)) with
  | Some b => b
  | None => Byte.x00
  end.

Definition Z_of_byte (b : byte) : Z := Z.of_N (Byte.to_N b).

(** [be_bytes n v]: the low [n] bytes of [v], most significant first
    (ethers' [Writer.writeValue] with [toBeArray] and left zero padding). *)
Fixpoint be_bytes (n : nat) (v : Z) : list byte :=
  match n with
  | O => []
  | S n' => be_bytes n' (v / 256) ++ [byte_of_Z v]
  end.

(** Reading a big-endian byte string back as a number. *)
Definition from_be (l : list byte) : Z :=
  fold_left (fun acc b => acc * 256 + Z_of_byte b) l 0.

(** ** ethers' ABI coder, static types *)

Inductive abi_type := TUint (bits : Z) | TAddress.

Definition WordSize : nat := 32.

(** NumberCoder.encode / AddressCoder.encode: a value out of the type's
    range throws ("value out-of-bounds" / "invalid address"); otherwise
    the value is written as one 32-byte big-endian word. *)
Definition abi_type_bits (t : abi_type) : Z :=
  match t with TUint b => b | TAddress => 160 end.

Definition fits (t : abi_type) (v : Z) : bool :=
  (0 <=? v) && (v <? 2 ^ abi_type_bits t).

Definition abi_encode_word (t : abi_type) (v : Z) : option (list byte) :=
  if fits t v then Some (be_bytes WordSize v) else None.

(** AbiCoder.encode on a tuple of static types: the words one after the
    other; a types/values length mismatch throws. *)
Fixpoint abi_encode (ts : list abi_type) (vs : list Z) : option (list byte) :=
  match ts, vs with
  | [], [] => Some []
  | t :: ts', v :: vs' =>
      match abi_encode_word t v, abi_encode ts' vs' with
      | Some w, Some rest => Some (w ++ rest)
      | _, _ => None
      end
  | _, _ => None
  end.

(** ** Data model (src/types.ts) *)

Record FeedbackAuth := mkFeedbackAuth {
  agentId : Z;
  clientAddress : Z;
  indexLimit : Z;
  expiry : Z;
  chainId : Z;
  identityRegistry : Z;
  signerAddress : Z
}.

(** Argument values handed to contract calls. *)
Inductive Value :=
  | VUint (z : Z)
  | VAddr (a : Z)
  | VNum (q : Q)
  | VStr (s : string)
  | VBytes (b : list byte).

(** ** Results, adapter trace and the client monad *)

Inductive result (A : Type) := Ok (a : A) | Err (msg : string).
Arguments Ok {A} a.
Arguments Err {A} msg.

(** One invocation of a [BlockchainAdapter] method. *)
Inductive AdapterEvent :=
  | EvCall (contract : string) (fn : string) (args : list Value)
  | EvSend (contract : string) (fn : string) (args : list Value)
  | EvSignMessage (message : list byte).

Definition M (A : Type) : Type :=
  list AdapterEvent -> result A * list AdapterEvent.

Definition ret {A} (a : A) : M A := fun tr => (Ok a, tr).
Definition throw {A} (msg : string) : M A := fun tr => (Err msg, tr).
Definition bind {A B} (m : M A) (f : A -> M B) : M B :=
  fun tr => match m tr with
            | (Ok a, tr') => f a tr'
            | (Err e, tr') => (Err e, tr')
            end.

Notation "x <- m ;; k" := (bind m (fun x => k))
  (at level 61, m at next level, right associativity).

(** A synchronous helper that throws. *)
Definition of_option {A} (msg : string) (o : option A) : M A :=
  match o with Some a => ret a | None => throw msg end.

(** ** The [BlockchainAdapter] interface (src/adapters/types.ts) *)

Record BlockchainAdapter := {
  ad_call : string -> string -> list Value -> result Value;
  ad_send : string -> string -> list Value -> result string;
  ad_signMessage : list byte -> result (list byte)
}.

Definition adapter_call (ad : BlockchainAdapter) (c fn : string) (args : list Value)
  : M Value :=
  fun tr => (ad_call ad c fn args, tr ++ [EvCall c fn args]).

Definition adapter_send (ad : BlockchainAdapter) (c fn : string) (args : list Value)
  : M string :=
  fun tr => (ad_send ad c fn args, tr ++ [EvSend c fn args]).

Definition adapter_signMessage (ad : BlockchainAdapter) (msg : list byte)
  : M (list byte) :=
  fun tr => (ad_signMessage ad msg, tr ++ [EvSignMessage msg]).

(** ** EthersAdapter (src/adapters/ethers.ts) *)

(** The parts of an ethers [Provider] and [Signer] the adapter uses. *)
Record EthersProvider := {
  provider_call : string -> string -> list Value -> result Value
}.

Record EthersSigner := {
  signer_signMessage : list byte -> result (list byte);
  signer_send : string -> string -> list Value -> result string
}.

Definition EthersAdapter (provider : EthersProvider) (signer : option EthersSigner)
  : BlockchainAdapter := {|
  ad_call := provider_call provider;
  ad_send := fun c fn args =>
    match signer with
    | None => Err "Signer required for write operations"
    | Some s => signer_send s c fn args
    end;
  ad_signMessage := fun message =>
    match signer with
    | None => Err "Signer required for signing"
    | Some s => signer_signMessage s message
    end |}.

(** ** ViemAdapter (src/adapters/viem.ts) *)

Record ViemPublicClient := {
  readContract : string -> string -> list Value -> result Value;
  (** [simulateContract({address, abi, functionName, args, account})]:
      throws when the simulated call reverts. *)
  simulateContract : string -> string -> list Value -> Z -> result unit;
  (** [waitForTransactionReceipt({hash})], giving the receipt's
      [transactionHash]. *)
  waitForTransactionReceipt : string -> result string
}.

Record ViemWalletClient := {
  wallet_signMessage : Z -> list byte -> result (list byte);
  wallet_write : Z -> string -> string -> list Value -> result string
}.

(** The function-name cleaning of [ViemAdapter.call] and [ViemAdapter.send]. *)

(** [String.prototype.indexOf] for a one-character search string: the
    first position of [c] in [s], or -1. *)
Fixpoint indexOf (c : ascii) (s : string) : Z :=
  match s with
  | EmptyString => -1
  | String a s' =>
      if Ascii.eqb a c then 0
      else let r := indexOf c s' in if r <? 0 then -1 else r + 1
  end.

Definition includes (c : ascii) (s : string) : bool := 0 <=? indexOf c s.

(** [functionName.includes('(') ? functionName.substring(0,
    functionName.indexOf('(')) : functionName] *)
Definition cleanFunctionName (functionName : string) : string :=
  if includes "(" functionName
  then substring 0 (Z.to_nat (indexOf "(" functionName)) functionName
  else functionName.

(** [ViemAdapter.call]: the public client reads with the cleaned name. *)
Definition viem_call (publicClient : ViemPublicClient)
  (contractAddress' functionName : string) (args : list Value) : result Value :=
  readContract publicClient contractAddress' (cleanFunctionName functionName) args.

Definition ViemAdapter (publicClient : ViemPublicClient)
  (walletClient : option ViemWalletClient) (account : option Z) : BlockchainAdapter := {|
  ad_call := viem_call publicClient;
  ad_send := fun c fn args =>
    match walletClient, account with
    | Some w, Some acc =>
        let fn' := cleanFunctionName fn in
        match simulateContract publicClient c fn' args acc with
        | Err e => Err e
        | Ok _ =>
            match wallet_write w acc c fn' args with
            | Ok hash => waitForTransactionReceipt publicClient hash
            | Err e => Err e
            end
        end
    | _, _ => Err "Wallet client and account required for write operations"
    end;
  ad_signMessage := fun message =>
    match walletClient, account with
    | Some w, Some acc => wallet_signMessage w acc message
    | _, _ => Err "Wallet client and account required for signing"
    end |}.

(** ** ReputationClient (src/ReputationClient.ts) *)

Record ReputationClient := mkReputationClient {
  adapter : BlockchainAdapter;
  contractAddress : string;
  identityRegistryAddress : Z
}.

Record GiveFeedbackParams := mkGiveFeedbackParams {
  gf_agentId : Z;
  score : Q;
  tag1 : option string;
  tag2 : option string;
  feedbackUri : option string;
  feedbackHash : option string;
  feedbackAuth : list byte
}.

(** JavaScript truthiness of an optional string: [undefined] and [""]
    are falsy. *)
Definition truthy (o : option string) : option string :=
  match o with
  | Some s => if String.eqb s EmptyString then None else Some s
  | None => None
  end.

Definition ZeroHash : string :=
  String.append "0x" (string_of_list_ascii (repeat "0"%char 64)).

Definition createFeedbackAuth (self : ReputationClient)
  (agentId' clientAddress' indexLimit' expiry' chainId' signerAddress' : Z)
  : FeedbackAuth := {|
  agentId := agentId';
  clientAddress := clientAddress';
  indexLimit := indexLimit';
  expiry := expiry';
  chainId := chainId';
  identityRegistry := identityRegistryAddress self;
  signerAddress := signerAddress' |}.

(** The tuple type list passed to the ABI coder by [signFeedbackAuth]. *)
Definition feedbackAuth_types : list abi_type :=
  [TUint 256; TAddress; TUint 256; TUint 256; TUint 256; TAddress; TAddress].

Definition feedbackAuth_values (auth : FeedbackAuth) : list Z :=
  [agentId auth; clientAddress auth; indexLimit auth; expiry auth;
   chainId auth; identityRegistry auth; signerAddress auth].

Definition encodeFeedbackAuth (auth : FeedbackAuth) : option (list byte) :=
  abi_encode feedbackAuth_types (feedbackAuth_values auth).

Definition abi_error : string := "ABI encoding error".

Section Crypto.

(** [ethers.keccak256] followed by [ethers.getBytes]. *)
Variable keccak256 : list byte -> list byte.
(** [ethers.id]: keccak-256 of the UTF-8 bytes of a string, as 0x-hex. *)
Variable ethers_id : string -> string.

Definition signFeedbackAuth (self : ReputationClient) (auth : FeedbackAuth)
  : M (list byte) :=
  encoded <- of_option abi_error (encodeFeedbackAuth auth) ;;
  let messageHash := keccak256 encoded in
  signature <- adapter_signMessage (adapter self) messageHash ;;
  ret (encoded ++ signature).

Definition score_error : string := "Score MUST be between 0 and 100".

(** [a < b] on JavaScript numbers (finite ones). *)
Definition js_lt (a b : Q) : bool := negb (Qle_bool b a).

Definition tag_to_bytes32 (t : option string) : string :=
  match truthy t with
  | Some s => substring 0 66 (ethers_id s)
  | None => ZeroHash
  end.

Definition giveFeedback (self : ReputationClient) (params : GiveFeedbackParams)
  : M string :=
  if js_lt (score params) 0 || js_lt 100 (score params) then throw score_error
  else
    let t1 := tag_to_bytes32 (tag1 params) in
    let t2 := tag_to_bytes32 (tag2 params) in
    let fbHash := match truthy (feedbackHash params) with
                  | Some h => h | None => ZeroHash end in
    let fbUri := match truthy (feedbackUri params) with
                 | Some u => u | None => EmptyString end in
    txHash <- adapter_send (adapter self) (contractAddress self) "giveFeedback"
      [VUint (gf_agentId params); VNum (score params); VStr t1; VStr t2;
       VStr fbUri; VStr fbHash; VBytes (feedbackAuth params)] ;;
    ret txHash.

End Crypto.

(** ** [BigInt(value)] (ECMAScript ToBigInt via the BigInt constructor) *)

Definition bigint_syntax_error : string := "SyntaxError: Cannot convert to a BigInt".
Definition bigint_range_error : string :=
  "RangeError: The number cannot be converted to a BigInt because it is not an integer".

(** StrWhiteSpaceChar, on ASCII: TAB, LF, VT, FF, CR and space. *)
Definition is_js_space (c : ascii) : bool :=
  let n := nat_of_ascii c in ((9 <=? n)%nat && (n <=? 13)%nat) || (n =? 32)%nat.

Fixpoint drop_spaces (cs : list ascii) : list ascii :=
  match cs with
  | c :: cs' => if is_js_space c then drop_spaces cs' else cs
  | [] => []
  end.

Definition js_trim (cs : list ascii) : list ascii :=
  rev (drop_spaces (rev (drop_spaces cs))).

Definition digit_value (c : ascii) : option Z :=
  let n := Z.of_nat (nat_of_ascii c) in
  if (48 <=? n) && (n <=? 57) then Some (n - 48)
  else if (97 <=? n) && (n <=? 102) then Some (n - 87)
  else if (65 <=? n) && (n <=? 70) then Some (n - 55)
  else None.

Fixpoint digits_value (radix acc : Z) (cs : list ascii) : option Z :=
  match cs with
  | [] => Some acc
  | c :: cs' =>
      match digit_value c with
      | Some d => if d <? radix then digits_value radix (acc * radix + d) cs' else None
      | None => None
      end
  end.

(** At least one digit of the radix, nothing else. *)
Definition parse_digits (radix : Z) (cs : list ascii) : option Z :=
  match cs with [] => None | _ => digits_value radix 0 cs end.

(** StringToBigInt: surrounding white space is ignored; an empty string is
    0; a 0x/0o/0b prefix (either case) selects radix 16/8/2 (no sign
    allowed); otherwise an optionally signed decimal integer. *)
Definition StringToBigInt (s : string) : option Z :=
  match js_trim (list_ascii_of_string s) with
  | [] => Some 0
  | c :: rest =>
      if Ascii.eqb c "0" then
        match rest with
        | x :: ds =>
            if Ascii.eqb x "x" || Ascii.eqb x "X" then parse_digits 16 ds
            else if Ascii.eqb x "o" || Ascii.eqb x "O" then parse_digits 8 ds
            else if Ascii.eqb x "b" || Ascii.eqb x "B" then parse_digits 2 ds
            else parse_digits 10 (c :: rest)
        | [] => Some 0
        end
      else if Ascii.eqb c "-" then option_map Z.opp (parse_digits 10 rest)
      else if Ascii.eqb c "+" then parse_digits 10 rest
      else parse_digits 10 (c :: rest)
  end.

(** [BigInt(v)] on each kind of value an adapter can return: a bigint is
    kept; a number must be integral; an address is its 0x-hex string; a
    byte array converts through its string form (the bytes in decimal,
    comma separated), so the empty array is 0, a single byte its value,
    and two or more bytes a SyntaxError. *)
Definition js_BigInt (v : Value) : result Z :=
  match v with
  | VUint z => Ok z
  | VNum q =>
      if Z.rem (Qnum q) (Zpos (Qden q)) =? 0
      then Ok (Z.quot (Qnum q) (Zpos (Qden q))) else Err bigint_range_error
  | VAddr a => Ok a
  | VStr s =>
      match StringToBigInt s with Some z => Ok z | None => Err bigint_syntax_error end
  | VBytes [] => Ok 0
  | VBytes [b] => Ok (Z_of_byte b)
  | VBytes _ => Err bigint_syntax_error
  end.

Definition to_bigint (v : Value) : M Z :=
  match js_BigInt v with
  | Ok z => ret z
  | Err e => throw e
  end.

Definition getLastIndex (self : ReputationClient) (agentId' clientAddress' : Z)
  : M Z :=
  result <- adapter_call (adapter self) (contractAddress self) "getLastIndex"
              [VUint agentId'; VAddr clientAddress'] ;;
  to_bigint result.

(** ** The other ReputationClient operations (src/ReputationClient.ts) *)





(** ** The feedback flow of the examples (examples/testReputation.ts)

    The agent owner's client reads the last index, builds the record with
    [lastIndex + 1], signs it; the client's own ReputationClient submits the
    signed bytes with its score and tags. *)
Definition authorizeAndGiveFeedback (keccak256 : list byte -> list byte)
  (ethers_id : string -> string) (owner submitter : ReputationClient)
  (agentId' clientAddress' expiry' chainId' signerAddress' : Z)
  (score' : Q) (tag1' tag2' : option string) : M string :=
  lastIndex <- getLastIndex owner agentId' clientAddress' ;;
  let auth := createFeedbackAuth owner agentId' clientAddress' (lastIndex + 1)
                expiry' chainId' signerAddress' in
  signedAuth <- signFeedbackAuth keccak256 owner auth ;;
  giveFeedback ethers_id submitter
    (mkGiveFeedbackParams agentId' score' tag1' tag2' None None signedAuth).

(** ** EthersAdapter.send: collecting the receipt's events *)

(** [for (const log of receipt.logs) { try { const parsed =
    contract.interface.parseLog(...); if (parsed) events.push(...) } catch {} }]:
    [parseLog] throws ([Err]), returns null ([Ok None]) or an event. *)
Fixpoint collect_events {Log Ev : Type} (parseLog : Log -> result (option Ev))
  (logs : list Log) : list Ev :=
  match logs with
  | [] => []
  | l :: ls =>
      match parseLog l with
      | Ok (Some e) => e :: collect_events parseLog ls
      | _ => collect_events parseLog ls
      end
  end.

(** [if (receipt && receipt.logs) ...]: a missing receipt or log list gives
    no events. *)
Definition receipt_events {Log Ev : Type} (parseLog : Log -> result (option Ev))
  (receiptLogs : option (list Log)) : list Ev :=
  match receiptLogs with
  | Some logs => collect_events parseLog logs
  | None => []
  end.

(** ** Reference layouts *)

(** The canonical encoding as the claims describe it: the seven fields in
    order (agentId, clientAddress, indexLimit, expiry, chainId,
    identityRegistry, signerAddress), each as one 32-byte big-endian word. *)
Definition canonical_encoding (auth : FeedbackAuth) : list byte :=
  concat (map (be_bytes WordSize) (feedbackAuth_values auth)).

Definition canonical_length : nat := 7 * WordSize.

(** Every field fits the width [signFeedbackAuth] declares for it. *)
Definition wf_auth (auth : FeedbackAuth) : bool :=
  forallb (fun tv => fits (fst tv) (snd tv))
    (combine feedbackAuth_types (feedbackAuth_values auth)).

(** The tuple of the wire format of the protocol: indexLimit is a uint64. *)
Definition feedbackAuth_wire_types : list abi_type :=
  [TUint 256; TAddress; TUint 64; TUint 256; TUint 256; TAddress; TAddress].

Definition encodeFeedbackAuth_wire (auth : FeedbackAuth) : option (list byte) :=
  abi_encode feedbackAuth_wire_types (feedbackAuth_values auth).

(** ** Concrete collaborators for the examples

    Test doubles for the injected capabilities, used only to evaluate the
    operations at concrete inputs. *)

(** A 32-byte stand-in for [keccak256]. *)
Definition sample_keccak256 (b : list byte) : list byte :=
  be_bytes WordSize (from_be b).

Definition sample_id (s : string) : string := s.

(** A signer returning a 65-byte signature. *)
Definition sample_signer : EthersSigner := {|
  signer_signMessage := fun m => Ok (be_bytes 65 (from_be m + 27));
  signer_send := fun _ _ _ => Ok "0x01"%string |}.

Definition sample_provider : EthersProvider := {|
  provider_call := fun _ _ _ => Ok (VUint 0) |}.

Definition sample_client (signer : option EthersSigner) : ReputationClient :=
  mkReputationClient (EthersAdapter sample_provider signer) "0x8004" 5.

Definition sample_auth : FeedbackAuth :=
  mkFeedbackAuth 1 2730 1 3600 31337 5 6.

Definition sample_params (s : Q) : GiveFeedbackParams :=
  mkGiveFeedbackParams 1 s None None None None [Byte.x01].

Definition sample_self : ReputationClient := sample_client (Some sample_signer).

(** The signature [sample_signer] returns for the digest of [auth]. *)
Definition sample_sig (auth : FeedbackAuth) : list byte :=
  be_bytes 65 (from_be (sample_keccak256 (canonical_encoding auth)) + 27).

(** A viem public client whose reads answer the function name they got. *)
Definition sample_public_client : ViemPublicClient := {|
  readContract := fun _ fn _ => Ok (VStr fn);
  simulateContract := fun _ _ _ _ => Ok tt;
  waitForTransactionReceipt := fun h => Ok h |}.

(** A record whose indexLimit needs more than 64 bits. *)
Definition big_index_auth : FeedbackAuth :=
  mkFeedbackAuth 1 2730 (2 ^ 64) 3600 31337 5 6.

(** * Proofs *)

(** ** Bytes and words *)

Lemma Z_of_byte_of_Z (z : Z) : Z_of_byte (byte_of_Z z) = z mod 256.
Proof.
  unfold Z_of_byte, byte_of_Z.
  assert (Hr : 0 <= z mod 256 < 256) by (apply Z.mod_pos_bound; lia).
  pose proof (Byte.to_of_N_option_map (Z.to_N (z mod 256))) as H.
  replace (N.leb (Z.to_N (z mod 256)) 255) with true in H
    by (symmetry; apply N.leb_le; lia).
  destruct (Byte.of_N (Z.to_N (z mod 256))) as [b|]; simpl in H; inversion H.
  rewrite H1. lia.
Qed.

Lemma be_bytes_length (n : nat) (v : Z) : length (be_bytes n v) = n.
Proof.
  revert v; induction n as [|n IH]; intros v; simpl; [reflexivity|].
  rewrite length_app, IH; simpl; lia.
Qed.

Lemma from_be_snoc (l : list byte) (b : byte) :
  from_be (l ++ [b]) = from_be l * 256 + Z_of_byte b.
Proof. unfold from_be. rewrite fold_left_app. reflexivity. Qed.

Lemma from_be_be_bytes (n : nat) (v : Z) :
  from_be (be_bytes n v) = v mod 256 ^ Z.of_nat n.
Proof.
  revert v; induction n as [|n IH]; intros v.
  - simpl. rewrite Z.mod_1_r. reflexivity.
  - simpl be_bytes. rewrite from_be_snoc, IH, Z_of_byte_of_Z.
    rewrite Nat2Z.inj_succ, Z.pow_succ_r by lia.
    assert (Hm : 0 < 256 ^ Z.of_nat n) by (apply Z.pow_pos_nonneg; lia).
    set (m := 256 ^ Z.of_nat n) in *.
    pose proof (Z.div_mod v 256 ltac:(lia)) as Hv.
    pose proof (Z.div_mod (v / 256) m ltac:(lia)) as Hq.
    pose proof (Z.mod_pos_bound v 256 ltac:(lia)).
    pose proof (Z.mod_pos_bound (v / 256) m Hm).
    set (q := v / 256) in *. set (r := v mod 256) in *.
    set (q' := q / m) in *. set (r' := q mod m) in *.
    apply Z.mod_unique with (q := q'); [left; nia | nia].
Qed.

Lemma be_bytes_inj (x y : Z) :
  0 <= x < 2 ^ 256 -> 0 <= y < 2 ^ 256 ->
  be_bytes WordSize x = be_bytes WordSize y -> x = y.
Proof.
  intros Hx Hy Heq.
  apply (f_equal from_be) in Heq.
  rewrite !from_be_be_bytes in Heq.
  change (256 ^ Z.of_nat WordSize) with (2 ^ 256) in Heq.
  rewrite !Z.mod_small in Heq by lia. exact Heq.
Qed.

Lemma app_eq_same_length {A} (l1 l2 r1 r2 : list A) :
  length l1 = length l2 -> l1 ++ r1 = l2 ++ r2 -> l1 = l2 /\ r1 = r2.
Proof.
  revert l2; induction l1 as [|x l1 IH]; intros [|y l2] Hl Heq;
    simpl in *; try discriminate; auto.
  injection Heq as -> Heq. injection Hl as Hl.
  destruct (IH l2 Hl Heq) as [-> ->]. auto.
Qed.

(** ** The ABI encoding of a FeedbackAuth *)

Lemma encodeFeedbackAuth_spec (auth : FeedbackAuth) :
  encodeFeedbackAuth auth =
  if wf_auth auth then Some (canonical_encoding auth) else None.
Proof.
  destruct auth as [a c i e ch r s].
  unfold encodeFeedbackAuth, wf_auth, canonical_encoding, feedbackAuth_values,
    feedbackAuth_types.
  cbn [abi_encode combine forallb map concat fst snd agentId clientAddress
    indexLimit expiry chainId identityRegistry signerAddress].
  unfold abi_encode_word.
  destruct (fits (TUint 256) a), (fits TAddress c), (fits (TUint 256) i),
    (fits (TUint 256) e), (fits (TUint 256) ch), (fits TAddress r),
    (fits TAddress s); reflexivity.
Qed.

Lemma canonical_encoding_length (auth : FeedbackAuth) :
  length (canonical_encoding auth) = canonical_length.
Proof.
  unfold canonical_encoding, canonical_length, feedbackAuth_values.
  cbn [map concat]. rewrite !length_app, !be_bytes_length. reflexivity.
Qed.

Lemma wf_auth_bounds (auth : FeedbackAuth) :
  wf_auth auth = true ->
  0 <= agentId auth < 2 ^ 256 /\ 0 <= clientAddress auth < 2 ^ 160 /\
  0 <= indexLimit auth < 2 ^ 256 /\ 0 <= expiry auth < 2 ^ 256 /\
  0 <= chainId auth < 2 ^ 256 /\ 0 <= identityRegistry auth < 2 ^ 160 /\
  0 <= signerAddress auth < 2 ^ 160.
Proof.
  destruct auth; unfold wf_auth, fits; simpl.
  rewrite !Bool.andb_true_iff, !Z.leb_le, !Z.ltb_lt. tauto.
Qed.

Lemma canonical_encoding_inj (a1 a2 : FeedbackAuth) :
  wf_auth a1 = true -> wf_auth a2 = true ->
  canonical_encoding a1 = canonical_encoding a2 -> a1 = a2.
Proof.
  intros H1 H2 Heq.
  apply wf_auth_bounds in H1; apply wf_auth_bounds in H2.
  assert (Hw : 2 ^ 160 < 2 ^ 256) by (vm_compute; reflexivity).
  destruct a1 as [a c i e ch r s], a2 as [a' c' i' e' ch' r' s'].
  unfold canonical_encoding, feedbackAuth_values in Heq; cbn [map concat] in Heq.
  cbn [agentId clientAddress indexLimit expiry chainId identityRegistry
    signerAddress] in H1, H2, Heq.
  repeat match type of Heq with
  | be_bytes WordSize ?x ++ _ = be_bytes WordSize ?y ++ _ =>
      let Hx := fresh "Hx" in
      apply app_eq_same_length in Heq;
        [destruct Heq as [Hx Heq] | rewrite !be_bytes_length; reflexivity];
      apply be_bytes_inj in Hx; [subst | lia | lia]
  end.
  reflexivity.
Qed.

(** ** Running signFeedbackAuth *)

Lemma signFeedbackAuth_run (keccak256 : list byte -> list byte)
  (self : ReputationClient) (auth : FeedbackAuth) (tr : list AdapterEvent) :
  signFeedbackAuth keccak256 self auth tr =
  match encodeFeedbackAuth auth with
  | Some enc =>
      (match ad_signMessage (adapter self) (keccak256 enc) with
       | Ok sig => Ok (enc ++ sig)
       | Err e => Err e
       end, tr ++ [EvSignMessage (keccak256 enc)])
  | None => (Err abi_error, tr)
  end.
Proof.
  unfold signFeedbackAuth, bind, of_option, adapter_signMessage, ret, throw.
  destruct (encodeFeedbackAuth auth) as [enc|]; [|reflexivity].
  destruct (ad_signMessage (adapter self) (keccak256 enc)); reflexivity.
Qed.

Lemma signFeedbackAuth_run_wf (keccak256 : list byte -> list byte)
  (self : ReputationClient) (auth : FeedbackAuth) (tr : list AdapterEvent) :
  wf_auth auth = true ->
  signFeedbackAuth keccak256 self auth tr =
  (match ad_signMessage (adapter self) (keccak256 (canonical_encoding auth)) with
   | Ok sig => Ok (canonical_encoding auth ++ sig)
   | Err e => Err e
   end, tr ++ [EvSignMessage (keccak256 (canonical_encoding auth))]).
Proof.
  intros Hwf. rewrite signFeedbackAuth_run, encodeFeedbackAuth_spec, Hwf.
  reflexivity.
Qed.

Lemma signFeedbackAuth_run_not_wf (keccak256 : list byte -> list byte)
  (self : ReputationClient) (auth : FeedbackAuth) (tr : list AdapterEvent) :
  wf_auth auth = false ->
  signFeedbackAuth keccak256 self auth tr = (Err abi_error, tr).
Proof.
  intros Hwf. rewrite signFeedbackAuth_run, encodeFeedbackAuth_spec, Hwf.
  reflexivity.
Qed.

(** * Claims about signFeedbackAuth and createFeedbackAuth *)

(** C1: whenever the signing capability answers [sig] for the digest,
    [signFeedbackAuth] returns exactly the canonical encoding of the record
    (the seven 32-byte words in the order agentId, clientAddress,
    indexLimit, expiry, chainId, identityRegistry, signerAddress) followed
    by [sig], for every record the ABI coder accepts; the encoding is 224
    bytes long whatever the field values, so splitting the envelope at byte
    224 gives back the encoding and the signature. *)
Theorem signFeedbackAuth_envelope (keccak256 : list byte -> list byte)
  (self : ReputationClient) (auth : FeedbackAuth) (tr : list AdapterEvent)
  (sig : list byte) :
  ad_signMessage (adapter self) (keccak256 (canonical_encoding auth)) = Ok sig ->
  (fst (signFeedbackAuth keccak256 self auth tr) = Ok (canonical_encoding auth ++ sig)
     <-> wf_auth auth = true) /\
  length (canonical_encoding auth) = 224%nat /\
  firstn 224 (canonical_encoding auth ++ sig) = canonical_encoding auth /\
  skipn 224 (canonical_encoding auth ++ sig) = sig.
Proof.
  intros Hsig.
  pose proof (canonical_encoding_length auth) as Hlen.
  change canonical_length with 224%nat in Hlen.
  split; [|split; [exact Hlen|split]].
  - destruct (wf_auth auth) eqn:Hwf.
    + rewrite signFeedbackAuth_run_wf, Hsig by exact Hwf. simpl. tauto.
    + rewrite signFeedbackAuth_run_not_wf by exact Hwf. simpl.
      split; intros H; discriminate H.
  - rewrite <- Hlen, firstn_app, firstn_all, Nat.sub_diag, firstn_O.
    apply app_nil_r.
  - rewrite <- Hlen, skipn_app, skipn_all, Nat.sub_diag. reflexivity.
Qed.

(** C6: two well-formed records that differ in at least one field have
    different canonical encodings, hence (for a hash without collision on
    these two encodings) different digests. *)
Theorem encodeFeedbackAuth_injective (keccak256 : list byte -> list byte)
  (a1 a2 : FeedbackAuth) :
  wf_auth a1 = true -> wf_auth a2 = true -> a1 <> a2 ->
  encodeFeedbackAuth a1 <> encodeFeedbackAuth a2 /\
  ((keccak256 (canonical_encoding a1) = keccak256 (canonical_encoding a2) ->
    canonical_encoding a1 = canonical_encoding a2) ->
   keccak256 (canonical_encoding a1) <> keccak256 (canonical_encoding a2)).
Proof.
  intros H1 H2 Hne.
  assert (Henc : canonical_encoding a1 <> canonical_encoding a2)
    by (intros Heq; apply Hne; exact (canonical_encoding_inj a1 a2 H1 H2 Heq)).
  split.
  - rewrite !encodeFeedbackAuth_spec, H1, H2. congruence.
  - intros Hcr Hk. exact (Henc (Hcr Hk)).
Qed.

(** C7: for a well-formed record the encoding and the digest are fixed by
    the record alone: every run of [signFeedbackAuth], whatever the adapter
    and the prior trace, signs the same digest of the same encoding, and
    its result depends on the adapter only through the signer's answer. *)
Theorem signFeedbackAuth_deterministic (keccak256 : list byte -> list byte)
  (auth : FeedbackAuth) :
  wf_auth auth = true ->
  exists enc, encodeFeedbackAuth auth = Some enc /\
  forall (self : ReputationClient) (tr : list AdapterEvent),
    signFeedbackAuth keccak256 self auth tr =
    (match ad_signMessage (adapter self) (keccak256 enc) with
     | Ok sig => Ok (enc ++ sig)
     | Err e => Err e
     end, tr ++ [EvSignMessage (keccak256 enc)]).
Proof.
  intros Hwf. exists (canonical_encoding auth). split.
  - rewrite encodeFeedbackAuth_spec, Hwf. reflexivity.
  - intros self tr. apply signFeedbackAuth_run_wf. exact Hwf.
Qed.

(** C8: [createFeedbackAuth] takes identityRegistry from the client's
    construction-time identity-registry address and copies every other
    field from its arguments. *)
Theorem createFeedbackAuth_fields (self : ReputationClient)
  (agentId' clientAddress' indexLimit' expiry' chainId' signerAddress' : Z) :
  let auth := createFeedbackAuth self agentId' clientAddress' indexLimit'
                expiry' chainId' signerAddress' in
  identityRegistry auth = identityRegistryAddress self /\
  agentId auth = agentId' /\ clientAddress auth = clientAddress' /\
  indexLimit auth = indexLimit' /\ expiry auth = expiry' /\
  chainId auth = chainId' /\ signerAddress auth = signerAddress'.
Proof. repeat split. Qed.

(** C9: with an adapter built without a signer (an EthersAdapter with no
    signer, or a ViemAdapter with no wallet client or no account),
    [signFeedbackAuth] fails with an error and returns no envelope; the
    trace holds at most the refused signing request. *)
Theorem signFeedbackAuth_without_signer (keccak256 : list byte -> list byte)
  (self : ReputationClient) (auth : FeedbackAuth) (tr : list AdapterEvent) :
  (exists p, adapter self = EthersAdapter p None) \/
  (exists pc acc, adapter self = ViemAdapter pc None acc) \/
  (exists pc w, adapter self = ViemAdapter pc w None) ->
  (exists e, fst (signFeedbackAuth keccak256 self auth tr) = Err e) /\
  (forall env, fst (signFeedbackAuth keccak256 self auth tr) <> Ok env) /\
  (snd (signFeedbackAuth keccak256 self auth tr) = tr \/
   snd (signFeedbackAuth keccak256 self auth tr) =
     tr ++ [EvSignMessage (keccak256 (canonical_encoding auth))]).
Proof.
  intros Hno.
  assert (Hsign : exists e,
            ad_signMessage (adapter self) (keccak256 (canonical_encoding auth)) = Err e).
  { destruct Hno as [[p Hp] | [[pc [acc Hp]] | [pc [w Hp]]]]; rewrite Hp; simpl;
      [eexists; reflexivity | eexists; reflexivity |].
    destruct w; eexists; reflexivity. }
  destruct Hsign as [e He].
  destruct (wf_auth auth) eqn:Hwf.
  - rewrite signFeedbackAuth_run_wf, He by exact Hwf. simpl.
    split; [eexists; reflexivity | split; [discriminate | right; reflexivity]].
  - rewrite signFeedbackAuth_run_not_wf by exact Hwf. simpl.
    split; [eexists; reflexivity | split; [discriminate | left; reflexivity]].
Qed.

Section Digest.

Variable keccak256 : list byte -> list byte.
(** ethers' [keccak256] always yields a 32-byte digest. *)
Hypothesis keccak256_length : forall b, length (keccak256 b) = 32%nat.

(** C3: for a record the ABI coder accepts, [signFeedbackAuth] hands the
    adapter's [signMessage] exactly the 32 bytes of the keccak-256 digest of
    the canonical encoding, makes no other adapter call (no registry read
    or write), and builds its result from the signer's answer. *)
Theorem signFeedbackAuth_signs_digest (self : ReputationClient)
  (auth : FeedbackAuth) (tr : list AdapterEvent) :
  wf_auth auth = true ->
  length (keccak256 (canonical_encoding auth)) = 32%nat /\
  snd (signFeedbackAuth keccak256 self auth tr) =
    tr ++ [EvSignMessage (keccak256 (canonical_encoding auth))] /\
  fst (signFeedbackAuth keccak256 self auth tr) =
    match ad_signMessage (adapter self) (keccak256 (canonical_encoding auth)) with
    | Ok sig => Ok (canonical_encoding auth ++ sig)
    | Err e => Err e
    end.
Proof.
  intros Hwf. rewrite signFeedbackAuth_run_wf by exact Hwf.
  split; [apply keccak256_length | split; reflexivity].
Qed.

End Digest.

(** ** The uint64 wire layout *)

Lemma encode_wire_agrees (auth : FeedbackAuth) :
  indexLimit auth < 2 ^ 64 ->
  encodeFeedbackAuth_wire auth = encodeFeedbackAuth auth.
Proof.
  intros Hi. destruct auth as [a c i e ch r s]; simpl in Hi.
  unfold encodeFeedbackAuth_wire, encodeFeedbackAuth, feedbackAuth_wire_types,
    feedbackAuth_types, feedbackAuth_values.
  cbn [abi_encode agentId clientAddress indexLimit expiry chainId
    identityRegistry signerAddress].
  unfold abi_encode_word at 3 10.
  replace (fits (TUint 64) i) with (fits (TUint 256) i); [reflexivity|].
  unfold fits, abi_type_bits.
  assert (2 ^ 64 < 2 ^ 256) by (vm_compute; reflexivity).
  destruct (0 <=? i) eqn:H0; [|reflexivity]. cbn [andb].
  rewrite (proj2 (Z.ltb_lt i (2 ^ 64))) by lia.
  rewrite (proj2 (Z.ltb_lt i (2 ^ 256))) by lia. reflexivity.
Qed.

(** ** Running giveFeedback *)

Lemma score_check_false (q : Q) :
  js_lt q 0 || js_lt 100 q = false <-> (0 <= q /\ q <= 100)%Q.
Proof.
  unfold js_lt. rewrite Bool.orb_false_iff, !Bool.negb_false_iff, !Qle_bool_iff.
  tauto.
Qed.

Lemma giveFeedback_rejected (ethers_id : string -> string)
  (self : ReputationClient) (params : GiveFeedbackParams) (tr : list AdapterEvent) :
  js_lt (score params) 0 || js_lt 100 (score params) = true ->
  giveFeedback ethers_id self params tr = (Err score_error, tr).
Proof. intros H. unfold giveFeedback. rewrite H. reflexivity. Qed.

Lemma giveFeedback_accepted (ethers_id : string -> string)
  (self : ReputationClient) (params : GiveFeedbackParams) (tr : list AdapterEvent) :
  js_lt (score params) 0 || js_lt 100 (score params) = false ->
  exists t1 t2 uri h,
    let args := [VUint (gf_agentId params); VNum (score params); VStr t1; VStr t2;
                 VStr uri; VStr h; VBytes (feedbackAuth params)] in
    giveFeedback ethers_id self params tr =
    (ad_send (adapter self) (contractAddress self) "giveFeedback" args,
     tr ++ [EvSend (contractAddress self) "giveFeedback" args]).
Proof.
  intros H. unfold giveFeedback. rewrite H.
  exists (tag_to_bytes32 ethers_id (tag1 params)),
    (tag_to_bytes32 ethers_id (tag2 params)),
    (match truthy (feedbackUri params) with Some u => u | None => EmptyString end),
    (match truthy (feedbackHash params) with Some h => h | None => ZeroHash end).
  unfold bind, adapter_send, ret.
  destruct (ad_send _ _ _ _); reflexivity.
Qed.

Lemma score_in_range_Z (z : Z) :
  (0 <= inject_Z z /\ inject_Z z <= 100)%Q <-> 0 <= z <= 100.
Proof.
  change 0%Q with (inject_Z 0). change 100%Q with (inject_Z 100).
  rewrite <- !Zle_Qle. reflexivity.
Qed.

(** * Claims about giveFeedback *)

(** C5: for an integral score [z], [giveFeedback] fails with the local
    score error and leaves the adapter trace untouched exactly when
    [z < 0] or [z > 100]; otherwise it hands the score to one adapter
    [send] of giveFeedback. *)
Theorem giveFeedback_integer_score_check (ethers_id : string -> string)
  (self : ReputationClient) (params : GiveFeedbackParams) (z : Z)
  (tr : list AdapterEvent) :
  score params = inject_Z z ->
  ((z < 0 \/ 100 < z) <-> giveFeedback ethers_id self params tr = (Err score_error, tr)) /\
  (0 <= z <= 100 ->
   exists args, snd (giveFeedback ethers_id self params tr) =
                tr ++ [EvSend (contractAddress self) "giveFeedback" args] /\
                nth_error args 1 = Some (VNum (inject_Z z))).
Proof.
  intros Hs.
  assert (Hc : js_lt (score params) 0 || js_lt 100 (score params) = false
               <-> 0 <= z <= 100)
    by (rewrite score_check_false, Hs; apply score_in_range_Z).
  destruct (js_lt (score params) 0 || js_lt 100 (score params)) eqn:Hb.
  - assert (Hout : z < 0 \/ 100 < z).
    { destruct (Z_lt_le_dec z 0); [left; lia|].
      destruct (Z_lt_le_dec 100 z); [right; lia|].
      assert (true = false) by (apply Hc; lia). discriminate. }
    rewrite (giveFeedback_rejected ethers_id self params tr Hb).
    split; [tauto | intros Hin; lia].
  - destruct (giveFeedback_accepted ethers_id self params tr Hb)
      as [t1 [t2 [uri [h Hrun]]]].
    simpl in Hrun. rewrite Hrun.
    assert (Hin : 0 <= z <= 100) by (apply Hc; reflexivity).
    split.
    + split; [lia|]. intros Heq. injection Heq as _ Htr.
      apply (f_equal (@length AdapterEvent)) in Htr.
      rewrite length_app in Htr. simpl in Htr. lia.
    + intros _. eexists. split; [reflexivity|]. simpl. rewrite Hs. reflexivity.
Qed.

(** C10: the local check only bounds the score: every score [q] with
    [0 <= q <= 100], integral or not, passes, and [giveFeedback] forwards it
    unchanged as the score argument of its single adapter [send]. *)
Theorem giveFeedback_forwards_score (ethers_id : string -> string)
  (self : ReputationClient) (params : GiveFeedbackParams) (tr : list AdapterEvent) :
  (0 <= score params)%Q -> (score params <= 100)%Q ->
  exists t1 t2 uri h,
    let args := [VUint (gf_agentId params); VNum (score params); VStr t1; VStr t2;
                 VStr uri; VStr h; VBytes (feedbackAuth params)] in
    giveFeedback ethers_id self params tr =
    (ad_send (adapter self) (contractAddress self) "giveFeedback" args,
     tr ++ [EvSend (contractAddress self) "giveFeedback" args]).
Proof.
  intros H0 H100. apply giveFeedback_accepted.
  apply score_check_false. split; assumption.
Qed.

(** C4 (as the code does it): [giveFeedback] neither reads the last index
    nor builds or signs a record. A score below 0 or above 100 is rejected
    with the score error and no adapter interaction; a score in [0, 100]
    leads to exactly one adapter [send] of giveFeedback, whose result is
    the call's result and whose last argument is the caller-supplied signed
    feedbackAuth, unchanged. Reading the index ([getLastIndex]), building
    ([createFeedbackAuth]) and signing ([signFeedbackAuth]) are separate
    operations left to the caller. *)
Theorem giveFeedback_submits_presigned_auth (ethers_id : string -> string)
  (self : ReputationClient) (params : GiveFeedbackParams) (tr : list AdapterEvent) :
  ((score params < 0 \/ 100 < score params)%Q ->
   giveFeedback ethers_id self params tr = (Err score_error, tr)) /\
  ((0 <= score params /\ score params <= 100)%Q ->
   exists args,
     giveFeedback ethers_id self params tr =
       (ad_send (adapter self) (contractAddress self) "giveFeedback" args,
        tr ++ [EvSend (contractAddress self) "giveFeedback" args]) /\
     last args (VUint 0) = VBytes (feedbackAuth params)).
Proof.
  split.
  - intros Hout. apply giveFeedback_rejected. unfold js_lt.
    apply Bool.orb_true_iff.
    destruct Hout as [Hlt|Hgt]; [left | right]; apply Bool.negb_true_iff.
    + destruct (Qle_bool 0 (score params)) eqn:E; [|reflexivity].
      apply Qle_bool_iff in E. exfalso. exact (Qlt_not_le _ _ Hlt E).
    + destruct (Qle_bool (score params) 100) eqn:E; [|reflexivity].
      apply Qle_bool_iff in E. exfalso. exact (Qlt_not_le _ _ Hgt E).
  - intros Hin. apply score_check_false in Hin.
    destruct (giveFeedback_accepted ethers_id self params tr Hin)
      as [t1 [t2 [uri [h Hrun]]]].
    cbv zeta in Hrun. eexists. split; [exact Hrun | reflexivity].
Qed.

(** * Divergences from the spec *)

(** C2: [signFeedbackAuth] encodes indexLimit as a uint256, not as the
    uint64 of the wire format. An indexLimit of 2^64 has no uint64
    encoding, yet [signFeedbackAuth] returns an envelope for it (below 2^64
    the two encodings coincide, [encode_wire_agrees]). *)
Theorem signFeedbackAuth_index_over_uint64 :
  encodeFeedbackAuth_wire big_index_auth = None /\
  fst (signFeedbackAuth sample_keccak256 sample_self big_index_auth []) =
    Ok (canonical_encoding big_index_auth ++ sample_sig big_index_auth).
Proof.
  split; [vm_compute; reflexivity|].
  rewrite signFeedbackAuth_run_wf by (vm_compute; reflexivity).
  reflexivity.
Qed.

(** C4 refuted: a score-95 submission through [giveFeedback] reaches the
    registry with one [send] and no [getLastIndex] read and no signing
    request before it. *)
Lemma giveFeedback_no_orchestration :
  let tr := snd (giveFeedback sample_id sample_self (sample_params 95) []) in
  (exists args, tr = [EvSend "0x8004" "giveFeedback" args]) /\
  (forall c args, ~ In (EvCall c "getLastIndex" args) tr) /\
  (forall m, ~ In (EvSignMessage m) tr).
Proof.
  vm_compute.
  split; [eexists; reflexivity|].
  split; [intros c args [H|[]]; discriminate | intros m [H|[]]; discriminate].
Qed.

(** * Witnesses *)

Lemma signFeedbackAuth_envelope_witness :
  ad_signMessage (adapter sample_self)
    (sample_keccak256 (canonical_encoding sample_auth)) = Ok (sample_sig sample_auth) /\
  fst (signFeedbackAuth sample_keccak256 sample_self sample_auth []) =
    Ok (canonical_encoding sample_auth ++ sample_sig sample_auth).
Proof.
  assert (Hsig : ad_signMessage (adapter sample_self)
    (sample_keccak256 (canonical_encoding sample_auth)) = Ok (sample_sig sample_auth))
    by reflexivity.
  split; [exact Hsig|].
  apply (proj2 (proj1 (signFeedbackAuth_envelope sample_keccak256 sample_self
    sample_auth [] (sample_sig sample_auth) Hsig))).
  vm_compute. reflexivity.
Defined.

Lemma signFeedbackAuth_signs_digest_witness :
  (forall b, length (sample_keccak256 b) = 32%nat) /\ wf_auth sample_auth = true /\
  snd (signFeedbackAuth sample_keccak256 sample_self sample_auth []) =
    [EvSignMessage (sample_keccak256 (canonical_encoding sample_auth))].
Proof.
  assert (Hlen : forall b, length (sample_keccak256 b) = 32%nat)
    by (intros b; unfold sample_keccak256; apply be_bytes_length).
  assert (Hwf : wf_auth sample_auth = true) by (vm_compute; reflexivity).
  split; [exact Hlen | split; [exact Hwf|]].
  apply (proj1 (proj2 (signFeedbackAuth_signs_digest sample_keccak256 Hlen
    sample_self sample_auth [] Hwf))).
Defined.

Lemma giveFeedback_integer_score_check_witness :
  score (sample_params (inject_Z 101)) = inject_Z 101 /\
  giveFeedback sample_id sample_self (sample_params (inject_Z 101)) [] =
    (Err score_error, []).
Proof.
  split; [reflexivity|].
  apply (proj1 (proj1 (giveFeedback_integer_score_check sample_id sample_self
    (sample_params (inject_Z 101)) 101 [] eq_refl))).
  right; lia.
Defined.

Lemma encodeFeedbackAuth_injective_witness :
  let a2 := mkFeedbackAuth 1 2730 1 3600 1 5 6 in
  wf_auth sample_auth = true /\ wf_auth a2 = true /\ sample_auth <> a2 /\
  encodeFeedbackAuth sample_auth <> encodeFeedbackAuth a2.
Proof.
  intros a2.
  assert (H1 : wf_auth sample_auth = true) by (vm_compute; reflexivity).
  assert (H2 : wf_auth a2 = true) by (vm_compute; reflexivity).
  assert (Hne : sample_auth <> a2) by discriminate.
  split; [exact H1 | split; [exact H2 | split; [exact Hne|]]].
  exact (proj1 (encodeFeedbackAuth_injective sample_keccak256 sample_auth a2 H1 H2 Hne)).
Defined.

Lemma signFeedbackAuth_deterministic_witness :
  wf_auth sample_auth = true /\ encodeFeedbackAuth sample_auth <> None.
Proof.
  assert (Hwf : wf_auth sample_auth = true) by (vm_compute; reflexivity).
  split; [exact Hwf|].
  destruct (signFeedbackAuth_deterministic sample_keccak256 sample_auth Hwf)
    as [enc [Henc _]].
  rewrite Henc. discriminate.
Defined.

Lemma signFeedbackAuth_without_signer_witness :
  adapter (sample_client None) = EthersAdapter sample_provider None /\
  exists e, fst (signFeedbackAuth sample_keccak256 (sample_client None) sample_auth []) = Err e.
Proof.
  assert (Hno : adapter (sample_client None) = EthersAdapter sample_provider None)
    by reflexivity.
  split; [exact Hno|].
  apply (proj1 (signFeedbackAuth_without_signer sample_keccak256 (sample_client None)
    sample_auth [] (or_introl (ex_intro _ sample_provider Hno)))).
Defined.

Lemma giveFeedback_forwards_score_witness :
  (0 <= 101 # 2)%Q /\ (101 # 2 <= 100)%Q /\
  exists t1 t2 uri h,
    let args := [VUint 1; VNum (101 # 2); VStr t1; VStr t2; VStr uri; VStr h;
                 VBytes [Byte.x01]] in
    giveFeedback sample_id sample_self (sample_params (101 # 2)) [] =
    (ad_send (adapter sample_self) "0x8004" "giveFeedback" args,
     [EvSend "0x8004" "giveFeedback" args]).
Proof.
  assert (H0 : (0 <= 101 # 2)%Q) by (apply Qle_bool_iff; reflexivity).
  assert (H1 : (101 # 2 <= 100)%Q) by (apply Qle_bool_iff; reflexivity).
  split; [exact H0 | split; [exact H1|]].
  exact (giveFeedback_forwards_score sample_id sample_self (sample_params (101 # 2))
    [] H0 H1).
Defined.

(** * Further properties of the code *)

(** ** Reading the envelope back *)

Lemma word_at_concat (vs : list Z) (rest : list byte) (k : nat) :
  Forall (fun v => 0 <= v < 2 ^ 256) vs -> (k < length vs)%nat ->
  from_be (firstn 32 (skipn (32 * k) (concat (map (be_bytes WordSize) vs) ++ rest)))
  = nth k vs 0.
Proof.
  intros Hb; revert k; induction Hb as [|v vs Hv Hb IH]; intros k Hk;
    simpl in Hk; [lia|].
  rewrite map_cons, concat_cons, <- app_assoc.
  destruct k as [|k].
  - change (32 * 0)%nat with 0%nat. rewrite skipn_O, firstn_app, be_bytes_length.
    replace (32 - WordSize)%nat with 0%nat by reflexivity.
    rewrite firstn_O, app_nil_r.
    replace 32%nat with WordSize at 1 by reflexivity.
    rewrite <- (be_bytes_length WordSize v) at 1. rewrite firstn_all.
    rewrite from_be_be_bytes. change (256 ^ Z.of_nat WordSize) with (2 ^ 256).
    apply Z.mod_small. exact Hv.
  - rewrite skipn_app.
    rewrite (skipn_all2 (be_bytes WordSize v)) by (rewrite be_bytes_length; unfold WordSize; lia).
    rewrite app_nil_l, be_bytes_length.
    replace (32 * S k - WordSize)%nat with (32 * k)%nat by (unfold WordSize; lia).
    simpl (nth (S k) _ _). apply IH. lia.
Qed.

Lemma wf_auth_words (auth : FeedbackAuth) :
  wf_auth auth = true -> Forall (fun v => 0 <= v < 2 ^ 256) (feedbackAuth_values auth).
Proof.
  intros Hwf. apply wf_auth_bounds in Hwf.
  assert (Hw : 2 ^ 160 < 2 ^ 256) by (vm_compute; reflexivity).
  unfold feedbackAuth_values. repeat constructor; lia.
Qed.

(** X3: the envelope [signFeedbackAuth] returns can be read back: its
    k-th 32-byte word (k < 7), read big-endian, is the k-th field of the
    record in the order agentId, clientAddress, indexLimit, expiry,
    chainId, identityRegistry, signerAddress. *)
Theorem signFeedbackAuth_fields_readable (keccak256 : list byte -> list byte)
  (self : ReputationClient) (auth : FeedbackAuth) (tr : list AdapterEvent)
  (env : list byte) (k : nat) :
  fst (signFeedbackAuth keccak256 self auth tr) = Ok env -> (k < 7)%nat ->
  from_be (firstn 32 (skipn (32 * k) env)) = nth k (feedbackAuth_values auth) 0.
Proof.
  intros Henv Hk.
  destruct (wf_auth auth) eqn:Hwf.
  - rewrite signFeedbackAuth_run_wf in Henv by exact Hwf.
    destruct (ad_signMessage (adapter self) (keccak256 (canonical_encoding auth)))
      as [sig|e]; cbn [fst] in Henv; [|discriminate].
    assert (He : env = canonical_encoding auth ++ sig) by congruence.
    rewrite He. unfold canonical_encoding.
    apply (word_at_concat (feedbackAuth_values auth) sig k); [|exact Hk].
    apply wf_auth_words. exact Hwf.
  - rewrite signFeedbackAuth_run_not_wf in Henv by exact Hwf. discriminate.
Qed.

(** ** Failures of signFeedbackAuth *)

(** X4: [signFeedbackAuth] returns the ABI coder's error and leaves the
    adapter trace untouched (no signing request) exactly when some field of
    the record is out of the range of its ABI type. *)
Theorem signFeedbackAuth_rejects_unencodable (keccak256 : list byte -> list byte)
  (self : ReputationClient) (auth : FeedbackAuth) (tr : list AdapterEvent) :
  signFeedbackAuth keccak256 self auth tr = (Err abi_error, tr) <->
  wf_auth auth = false.
Proof.
  destruct (wf_auth auth) eqn:Hwf.
  - rewrite signFeedbackAuth_run_wf by exact Hwf. split; [|discriminate].
    intros H. injection H as _ Htr.
    apply (f_equal (@length AdapterEvent)) in Htr.
    rewrite length_app in Htr. cbn [length] in Htr. lia.
  - rewrite signFeedbackAuth_run_not_wf by exact Hwf. tauto.
Qed.

(** X5: [signFeedbackAuth] fails with error [e] exactly when the record is
    out of range and [e] is the ABI coder's error, or the record is
    encodable and the adapter's [signMessage] refused the digest with [e]
    (passed on unchanged). *)
Theorem signFeedbackAuth_error_cases (keccak256 : list byte -> list byte)
  (self : ReputationClient) (auth : FeedbackAuth) (tr : list AdapterEvent)
  (e : string) :
  fst (signFeedbackAuth keccak256 self auth tr) = Err e <->
  (wf_auth auth = false /\ e = abi_error) \/
  (wf_auth auth = true /\
   ad_signMessage (adapter self) (keccak256 (canonical_encoding auth)) = Err e).
Proof.
  destruct (wf_auth auth) eqn:Hwf.
  - rewrite signFeedbackAuth_run_wf by exact Hwf. cbn [fst].
    destruct (ad_signMessage (adapter self) (keccak256 (canonical_encoding auth)))
      as [sig|e'] eqn:Hs; split.
    + discriminate.
    + intros [[H _]|[_ H]]; discriminate.
    + intros H. right. split; [reflexivity | exact H].
    + intros [[H _]|[_ H]]; [discriminate | exact H].
  - rewrite signFeedbackAuth_run_not_wf by exact Hwf. cbn [fst]. split.
    + intros H. left. split; [reflexivity | congruence].
    + intros [[_ H]|[H _]]; [rewrite H; reflexivity | discriminate].
Qed.

(** ** The uint64 wire layout against the code's layout *)

Lemma encode_wire_none (auth : FeedbackAuth) :
  2 ^ 64 <= indexLimit auth -> encodeFeedbackAuth_wire auth = None.
Proof.
  intros Hi. destruct auth as [a c i e ch r s]; cbn [indexLimit] in Hi.
  unfold encodeFeedbackAuth_wire, feedbackAuth_wire_types, feedbackAuth_values.
  cbn [abi_encode agentId clientAddress indexLimit expiry chainId
    identityRegistry signerAddress].
  unfold abi_encode_word at 3.
  replace (fits (TUint 64) i) with false
    by (unfold fits, abi_type_bits; symmetry;
        apply Bool.andb_false_iff; right; apply Z.ltb_ge; exact Hi).
  destruct (abi_encode_word (TUint 256) a), (abi_encode_word TAddress c);
    reflexivity.
Qed.

(** X14: for a record the code encodes, its uint256 layout is the
    protocol's uint64 layout exactly when indexLimit is below 2^64. *)
Theorem encodeFeedbackAuth_wire_iff (auth : FeedbackAuth) :
  wf_auth auth = true ->
  (encodeFeedbackAuth_wire auth = encodeFeedbackAuth auth <-> indexLimit auth < 2 ^ 64).
Proof.
  intros Hwf. split.
  - intros Heq. destruct (Z_lt_le_dec (indexLimit auth) (2 ^ 64)) as [Hlt|Hge];
      [exact Hlt|].
    rewrite encode_wire_none, encodeFeedbackAuth_spec, Hwf in Heq by exact Hge.
    discriminate.
  - apply encode_wire_agrees.
Qed.

(** ** Tags *)

Lemma substring_prefix (n : nat) (s : string) :
  String.prefix (substring 0 n s) s = true /\
  (String.length (substring 0 n s) <= n)%nat /\
  ((n <= String.length s)%nat -> String.length (substring 0 n s) = n).
Proof.
  revert n; induction s as [|a s IH]; intros [|n]; cbn [substring String.length].
  - split; [reflexivity | split; lia].
  - split; [reflexivity | split; lia].
  - split; [reflexivity | split; lia].
  - destruct (IH n) as [Hp [Hl Hn]]. split; [|split; [lia | intros Hle; f_equal; apply Hn; lia]].
    cbn [String.prefix]. destruct (ascii_dec a a) as [_|Hne]; [exact Hp | contradiction].
Qed.

Lemma ZeroHash_length : String.length ZeroHash = 66%nat.
Proof. reflexivity. Qed.

(** X8: the bytes32 tag [giveFeedback] sends is at most 66 characters
    long; an absent or empty tag becomes [ZeroHash]; a non-empty tag [s]
    becomes a prefix of [ethers.id s], the whole 66-character hex string
    when [ethers.id s] has at least 66 characters. *)
Theorem tag_to_bytes32_shape (ethers_id : string -> string) (t : option string) :
  (String.length (tag_to_bytes32 ethers_id t) <= 66)%nat /\
  (t = None \/ t = Some EmptyString -> tag_to_bytes32 ethers_id t = ZeroHash) /\
  (forall s, t = Some s -> s <> EmptyString ->
   String.prefix (tag_to_bytes32 ethers_id t) (ethers_id s) = true /\
   ((66 <= String.length (ethers_id s))%nat ->
    String.length (tag_to_bytes32 ethers_id t) = 66%nat)).
Proof.
  split; [|split].
  - unfold tag_to_bytes32. destruct (truthy t) as [s|].
    + apply substring_prefix.
    + rewrite ZeroHash_length. lia.
  - intros [-> | ->]; reflexivity.
  - intros s -> Hs. unfold tag_to_bytes32, truthy.
    destruct s as [|ch s']; [contradiction|]. cbn [String.eqb].
    destruct (substring_prefix 66 (ethers_id (String ch s'))) as [Hp [_ Hn]].
    split; [exact Hp | exact Hn].
Qed.

(** ** A client whose EthersAdapter has no signer *)

Lemma getLastIndex_run (self : ReputationClient) (agentId' clientAddress' : Z)
  (tr : list AdapterEvent) :
  getLastIndex self agentId' clientAddress' tr =
  (match ad_call (adapter self) (contractAddress self) "getLastIndex"
           [VUint agentId'; VAddr clientAddress'] with
   | Ok v => js_BigInt v
   | Err e => Err e
   end,
   tr ++ [EvCall (contractAddress self) "getLastIndex" [VUint agentId'; VAddr clientAddress']]).
Proof.
  unfold getLastIndex, bind, adapter_call, to_bigint, ret, throw.
  destruct (ad_call _ _ _ _) as [v|e]; [destruct (js_BigInt v)|]; reflexivity.
Qed.

Lemma js_BigInt_uint (z : Z) : js_BigInt (VUint z) = Ok z.
Proof. reflexivity. Qed.


(** ** The feedback flow of the examples *)

Lemma authorizeAndGiveFeedback_unfold (keccak256 : list byte -> list byte)
  (ethers_id : string -> string) (owner submitter : ReputationClient)
  (a c exp ch sgn : Z) (score' : Q) (t1 t2 : option string) (tr : list AdapterEvent) :
  authorizeAndGiveFeedback keccak256 ethers_id owner submitter a c exp ch sgn
    score' t1 t2 tr =
  match getLastIndex owner a c tr with
  | (Ok l, tr1) =>
      match signFeedbackAuth keccak256 owner
              (createFeedbackAuth owner a c (l + 1) exp ch sgn) tr1 with
      | (Ok sa, tr2) =>
          giveFeedback ethers_id submitter
            (mkGiveFeedbackParams a score' t1 t2 None None sa) tr2
      | (Err e, tr2) => (Err e, tr2)
      end
  | (Err e, tr1) => (Err e, tr1)
  end.
Proof. reflexivity. Qed.

(** X6: when the owner's registry read answers [lastIdx], the record
    with indexLimit [lastIdx + 1] is encodable, the owner's signer signs
    its digest and the score is in range, the flow makes exactly three
    adapter invocations (the read, the signing request, the submitter's
    giveFeedback send), the submitted feedbackAuth is the envelope, and its
    third word reads back as [lastIdx + 1]. *)
Theorem authorizeAndGiveFeedback_success (keccak256 : list byte -> list byte)
  (ethers_id : string -> string) (owner submitter : ReputationClient)
  (a c exp ch sgn lastIdx : Z) (score' : Q) (t1 t2 : option string)
  (sig : list byte) (tr : list AdapterEvent) :
  let auth := createFeedbackAuth owner a c (lastIdx + 1) exp ch sgn in
  ad_call (adapter owner) (contractAddress owner) "getLastIndex"
    [VUint a; VAddr c] = Ok (VUint lastIdx) ->
  wf_auth auth = true ->
  ad_signMessage (adapter owner) (keccak256 (canonical_encoding auth)) = Ok sig ->
  (0 <= score')%Q -> (score' <= 100)%Q ->
  exists args,
    authorizeAndGiveFeedback keccak256 ethers_id owner submitter a c exp ch sgn
      score' t1 t2 tr =
      (ad_send (adapter submitter) (contractAddress submitter) "giveFeedback" args,
       tr ++ [EvCall (contractAddress owner) "getLastIndex" [VUint a; VAddr c];
              EvSignMessage (keccak256 (canonical_encoding auth));
              EvSend (contractAddress submitter) "giveFeedback" args]) /\
    last args (VUint 0) = VBytes (canonical_encoding auth ++ sig) /\
    indexLimit auth = lastIdx + 1 /\
    from_be (firstn 32 (skipn 64 (canonical_encoding auth ++ sig))) = lastIdx + 1.
Proof.
  intros auth Hcall Hwf Hsig H0 H100. unfold auth in *.
  assert (Hb : js_lt score' 0 || js_lt 100 score' = false)
    by (apply score_check_false; split; assumption).
  set (env := canonical_encoding (createFeedbackAuth owner a c (lastIdx + 1) exp ch sgn)
              ++ sig).
  set (read := EvCall (contractAddress owner) "getLastIndex" [VUint a; VAddr c]).
  set (signing := EvSignMessage (keccak256
                    (canonical_encoding (createFeedbackAuth owner a c (lastIdx + 1)
                       exp ch sgn)))).
  destruct (giveFeedback_accepted ethers_id submitter
              (mkGiveFeedbackParams a score' t1 t2 None None env)
              ((tr ++ [read]) ++ [signing]) Hb) as [x1 [x2 [u [h Hrun]]]].
  cbv zeta in Hrun. cbn [gf_agentId score feedbackAuth] in Hrun.
  exists [VUint a; VNum score'; VStr x1; VStr x2; VStr u; VStr h; VBytes env].
  split; [|split; [reflexivity | split; [reflexivity|]]].
  - rewrite authorizeAndGiveFeedback_unfold, getLastIndex_run, Hcall, js_BigInt_uint.
    cbv beta iota. rewrite signFeedbackAuth_run_wf, Hsig by exact Hwf.
    cbv beta iota. fold read signing env. rewrite Hrun, <- !app_assoc.
    reflexivity.
  - unfold env, canonical_encoding. change 64%nat with (32 * 2)%nat.
    rewrite word_at_concat; [reflexivity | apply wf_auth_words; exact Hwf |].
    cbn. lia.
Qed.

(** X7: the flow always starts with the owner's getLastIndex read, and it
    goes further only as far as the code lets it: a signing request only
    after the read answered a value [v] that [BigInt] converts to some
    [lastIdx] for which the record with indexLimit [lastIdx + 1] is
    encodable, and a giveFeedback send only
    when, in addition, the signer answered and the score is in range; the
    send then carries the envelope as its last argument. *)
Theorem authorizeAndGiveFeedback_trace (keccak256 : list byte -> list byte)
  (ethers_id : string -> string) (owner submitter : ReputationClient)
  (a c exp ch sgn : Z) (score' : Q) (t1 t2 : option string)
  (tr : list AdapterEvent) :
  let auth := fun lastIdx => createFeedbackAuth owner a c (lastIdx + 1) exp ch sgn in
  let read := EvCall (contractAddress owner) "getLastIndex" [VUint a; VAddr c] in
  exists evs,
    snd (authorizeAndGiveFeedback keccak256 ethers_id owner submitter a c exp ch sgn
           score' t1 t2 tr) = tr ++ read :: evs /\
    (evs = [] \/
     exists v lastIdx,
       ad_call (adapter owner) (contractAddress owner) "getLastIndex"
         [VUint a; VAddr c] = Ok v /\
       js_BigInt v = Ok lastIdx /\
       wf_auth (auth lastIdx) = true /\
       (evs = [EvSignMessage (keccak256 (canonical_encoding (auth lastIdx)))] \/
        exists sig args,
          ad_signMessage (adapter owner)
            (keccak256 (canonical_encoding (auth lastIdx))) = Ok sig /\
          (0 <= score' /\ score' <= 100)%Q /\
          evs = [EvSignMessage (keccak256 (canonical_encoding (auth lastIdx)));
                 EvSend (contractAddress submitter) "giveFeedback" args] /\
          last args (VUint 0) = VBytes (canonical_encoding (auth lastIdx) ++ sig))).
Proof.
  intros auth read.
  rewrite authorizeAndGiveFeedback_unfold, getLastIndex_run.
  destruct (ad_call (adapter owner) (contractAddress owner) "getLastIndex"
              [VUint a; VAddr c]) as [v|e] eqn:Hc;
    [destruct (js_BigInt v) as [z|e] eqn:Hz | ]; cbv beta iota;
    try (exists []; split; [reflexivity | left; reflexivity]).
  destruct (wf_auth (createFeedbackAuth owner a c (z + 1) exp ch sgn)) eqn:Hwf.
  2: { rewrite signFeedbackAuth_run_not_wf by exact Hwf. cbv beta iota.
       exists []. split; [reflexivity | left; reflexivity]. }
  rewrite signFeedbackAuth_run_wf by exact Hwf.
  destruct (ad_signMessage (adapter owner)
              (keccak256 (canonical_encoding
                 (createFeedbackAuth owner a c (z + 1) exp ch sgn)))) as [sig|e] eqn:Hs;
    cbv beta iota.
  2: { exists [EvSignMessage (keccak256 (canonical_encoding (auth z)))].
       split; [cbn [snd]; rewrite <- app_assoc; reflexivity|].
       right. exists v, z. split; [reflexivity | split; [exact Hz | split; [exact Hwf | left; reflexivity]]]. }
  destruct (js_lt score' 0 || js_lt 100 score') eqn:Hb.
  - rewrite giveFeedback_rejected by exact Hb.
    exists [EvSignMessage (keccak256 (canonical_encoding (auth z)))].
    split; [cbn [snd]; rewrite <- app_assoc; reflexivity|].
    right. exists v, z. split; [reflexivity | split; [exact Hz | split; [exact Hwf | left; reflexivity]]].
  - destruct (giveFeedback_accepted ethers_id submitter
                (mkGiveFeedbackParams a score' t1 t2 None None
                   (canonical_encoding (createFeedbackAuth owner a c (z + 1) exp ch sgn)
                    ++ sig))
                ((tr ++ [EvCall (contractAddress owner) "getLastIndex" [VUint a; VAddr c]])
                 ++ [EvSignMessage (keccak256 (canonical_encoding
                       (createFeedbackAuth owner a c (z + 1) exp ch sgn)))]) Hb)
      as [x1 [x2 [u [h Hrun]]]].
    cbv zeta in Hrun. rewrite Hrun. cbn [snd].
    eexists. split; [rewrite <- !app_assoc; reflexivity|].
    right. exists v, z. split; [reflexivity | split; [exact Hz | split; [exact Hwf | right]]].
    eexists sig, _. split; [exact Hs|].
    split; [apply score_check_false; exact Hb | split; reflexivity].
Qed.

(** ** ViemAdapter: the function-name cleaning *)

Lemma indexOf_cons_neq (a : ascii) (s : string) :
  a <> "("%char ->
  indexOf "(" (String a s) =
  (if indexOf "(" s <? 0 then -1 else indexOf "(" s + 1).
Proof.
  intros Ha. cbn [indexOf].
  destruct (Ascii.eqb_spec a "("%char) as [E|_]; [contradiction | reflexivity].
Qed.

Lemma includes_cons_neq (a : ascii) (s : string) :
  a <> "("%char -> includes "(" (String a s) = includes "(" s.
Proof.
  intros Ha. unfold includes. rewrite indexOf_cons_neq by exact Ha.
  destruct (indexOf "(" s <? 0) eqn:Hr.
  - apply Z.ltb_lt in Hr. rewrite (proj2 (Z.leb_gt 0 (indexOf "(" s))) by lia.
    reflexivity.
  - apply Z.ltb_ge in Hr.
    rewrite (proj2 (Z.leb_le 0 (indexOf "(" s))), (proj2 (Z.leb_le 0 _)) by lia.
    reflexivity.
Qed.

Lemma cleanFunctionName_paren (s : string) :
  cleanFunctionName (String "(" s) = EmptyString.
Proof. reflexivity. Qed.

Lemma cleanFunctionName_cons (a : ascii) (s : string) :
  a <> "("%char -> cleanFunctionName (String a s) = String a (cleanFunctionName s).
Proof.
  intros Ha. unfold cleanFunctionName. rewrite includes_cons_neq by exact Ha.
  destruct (includes "(" s) eqn:Hi; [|reflexivity].
  rewrite indexOf_cons_neq by exact Ha.
  unfold includes in Hi. apply Z.leb_le in Hi.
  rewrite (proj2 (Z.ltb_ge (indexOf "(" s) 0)) by lia.
  rewrite Z2Nat.inj_add, Nat.add_1_r by lia. reflexivity.
Qed.

(** X11: the name [ViemAdapter.call] hands to [readContract] is the part
    of the function name before its first '(' (all of it when it has
    none): the rest of the name is empty or starts with '('; the cleaned
    name has no '(' and cleaning it again changes nothing. *)
Theorem cleanFunctionName_spec (functionName : string) :
  exists rest,
    functionName = (cleanFunctionName functionName ++ rest)%string /\
    (rest = EmptyString \/ exists r, rest = String "(" r) /\
    includes "(" (cleanFunctionName functionName) = false /\
    cleanFunctionName (cleanFunctionName functionName) = cleanFunctionName functionName.
Proof.
  induction functionName as [|a s IH].
  - exists EmptyString. split; [reflexivity | split; [left; reflexivity | split; reflexivity]].
  - destruct (ascii_dec a "("%char) as [->|Ha].
    + exists (String "(" s). rewrite cleanFunctionName_paren.
      split; [reflexivity | split; [right; exists s; reflexivity | split; reflexivity]].
    + destruct IH as [rest [Hs [Hr [Hi Hid]]]].
      exists rest. rewrite cleanFunctionName_cons by exact Ha.
      split; [cbn [String.append]; f_equal; exact Hs|].
      split; [exact Hr|].
      rewrite includes_cons_neq, cleanFunctionName_cons, Hid by exact Ha.
      split; [exact Hi | reflexivity].
Qed.

Lemma includes_paren (s : string) : includes "(" (String "(" s) = true.
Proof. reflexivity. Qed.

(** X12: an ethers-style signature [name(types)] is read through viem
    under its bare [name], whatever the parameter list. *)
Theorem viem_call_signature_name (publicClient : ViemPublicClient)
  (contractAddress' name params : string) (args : list Value) :
  includes "(" name = false ->
  viem_call publicClient contractAddress' (name ++ String "(" params)%string args =
  readContract publicClient contractAddress' name args.
Proof.
  intros Hn. unfold viem_call. f_equal.
  induction name as [|a s IH]; [apply cleanFunctionName_paren|].
  destruct (ascii_dec a "("%char) as [->|Ha].
  - rewrite includes_paren in Hn. discriminate.
  - rewrite includes_cons_neq in Hn by exact Ha. cbn [String.append].
    rewrite cleanFunctionName_cons, IH by exact Ha || exact Hn. reflexivity.
Qed.

(** ** EthersAdapter.send: the receipt's events *)

Lemma collect_events_spec {Log Ev : Type} (parseLog : Log -> result (option Ev))
  (logs : list Log) :
  (length (collect_events parseLog logs) <= length logs)%nat /\
  (forall e, In e (collect_events parseLog logs) <->
             exists l, In l logs /\ parseLog l = Ok (Some e)) /\
  ((forall l, In l logs -> exists e, parseLog l = Ok (Some e)) ->
   length (collect_events parseLog logs) = length logs).
Proof.
  induction logs as [|l ls [IHl [IHin IHall]]]; cbn [collect_events].
  - split; [cbn; lia | split; [intros e; split; [intros [] | intros [l [[] _]]] |
      reflexivity]].
  - destruct (parseLog l) as [[e0|]|msg] eqn:Hl.
    + split; [cbn [length]; lia|]. split.
      * intros e. cbn [In]. rewrite IHin. split.
        -- intros [<- | [l' [Hin Hp]]]; [exists l; auto | exists l'; auto].
        -- intros [l' [[<- | Hin] Hp]]; [left; congruence | right; exists l'; auto].
      * intros Hall. cbn [length]. f_equal. apply IHall.
        intros l' Hin. apply Hall. right. exact Hin.
    + split; [cbn [length]; lia|]. split.
      * intros e. rewrite IHin. split.
        -- intros [l' [Hin Hp]]. exists l'. split; [right; exact Hin | exact Hp].
        -- intros [l' [[<- | Hin] Hp]]; [congruence | exists l'; auto].
      * intros Hall. destruct (Hall l (or_introl eq_refl)) as [e He]. congruence.
    + split; [cbn [length]; lia|]. split.
      * intros e. rewrite IHin. split.
        -- intros [l' [Hin Hp]]. exists l'. split; [right; exact Hin | exact Hp].
        -- intros [l' [[<- | Hin] Hp]]; [congruence | exists l'; auto].
      * intros Hall. destruct (Hall l (or_introl eq_refl)) as [e He]. congruence.
Qed.

(** X13: the events [EthersAdapter.send] reports are exactly the
    receipt's logs that parse against the contract's interface (a log that
    fails to parse or parses to nothing is skipped, never an error); there
    are never more events than logs, one per log when every log parses, and
    none when the receipt or its log list is missing. *)
Theorem receipt_events_exact {Log Ev : Type} (parseLog : Log -> result (option Ev))
  (receiptLogs : option (list Log)) :
  let logs := match receiptLogs with Some l => l | None => [] end in
  (length (receipt_events parseLog receiptLogs) <= length logs)%nat /\
  (forall e, In e (receipt_events parseLog receiptLogs) <->
             exists l, In l logs /\ parseLog l = Ok (Some e)) /\
  ((forall l, In l logs -> exists e, parseLog l = Ok (Some e)) ->
   length (receipt_events parseLog receiptLogs) = length logs) /\
  (receiptLogs = None -> receipt_events parseLog receiptLogs = []).
Proof.
  intros logs.
  assert (Hr : receipt_events parseLog receiptLogs = collect_events parseLog logs)
    by (destruct receiptLogs; reflexivity).
  rewrite Hr. destruct (collect_events_spec parseLog logs) as [H1 [H2 H3]].
  split; [exact H1 | split; [exact H2 | split; [exact H3|]]].
  intros ->. reflexivity.
Qed.

(** * Witnesses of the further properties *)

Lemma signFeedbackAuth_fields_readable_witness :
  fst (signFeedbackAuth sample_keccak256 sample_self sample_auth []) =
    Ok (canonical_encoding sample_auth ++ sample_sig sample_auth) /\
  from_be (firstn 32 (skipn (32 * 2)
    (canonical_encoding sample_auth ++ sample_sig sample_auth))) =
    nth 2 (feedbackAuth_values sample_auth) 0.
Proof.
  assert (H : fst (signFeedbackAuth sample_keccak256 sample_self sample_auth []) =
              Ok (canonical_encoding sample_auth ++ sample_sig sample_auth))
    by (vm_compute; reflexivity).
  split; [exact H|].
  apply (signFeedbackAuth_fields_readable sample_keccak256 sample_self sample_auth []
    _ 2 H). lia.
Defined.

Lemma encodeFeedbackAuth_wire_iff_witness :
  wf_auth big_index_auth = true /\
  (encodeFeedbackAuth_wire big_index_auth = encodeFeedbackAuth big_index_auth <->
   indexLimit big_index_auth < 2 ^ 64).
Proof.
  assert (Hwf : wf_auth big_index_auth = true) by (vm_compute; reflexivity).
  split; [exact Hwf | exact (encodeFeedbackAuth_wire_iff big_index_auth Hwf)].
Defined.


Lemma authorizeAndGiveFeedback_success_witness :
  exists args,
    last args (VUint 0) = VBytes (canonical_encoding sample_auth ++ sample_sig sample_auth) /\
    fst (authorizeAndGiveFeedback sample_keccak256 sample_id sample_self sample_self
           1 2730 3600 31337 6 95 None None []) =
      ad_send (adapter sample_self) "0x8004" "giveFeedback" args.
Proof.
  assert (H0 : (0 <= 95)%Q) by (apply Qle_bool_iff; reflexivity).
  assert (H1 : (95 <= 100)%Q) by (apply Qle_bool_iff; reflexivity).
  destruct (authorizeAndGiveFeedback_success sample_keccak256 sample_id sample_self
    sample_self 1 2730 3600 31337 6 0 95 None None (sample_sig sample_auth) []
    ltac:(reflexivity) ltac:(vm_compute; reflexivity) ltac:(reflexivity) H0 H1)
    as [args [Hrun [Hlast _]]].
  exists args. split; [exact Hlast | rewrite Hrun; reflexivity].
Defined.

Lemma viem_call_signature_name_witness :
  includes "(" "register" = false /\
  viem_call sample_public_client "0x8004"
    ("register" ++ String "(" "string,(string,bytes)[])")%string [] =
    Ok (VStr "register").
Proof.
  assert (Hn : includes "(" "register" = false) by reflexivity.
  split; [exact Hn|].
  exact (viem_call_signature_name sample_public_client
    "0x8004" "register" "string,(string,bytes)[])" [] Hn).
Defined.
